(** * printenvz: dump the process environment, NUL-separated, between markers

    A shallow embedding of [vendor/printenvz/src/printenvz.c] and the
    properties of its output.

    The C program is

<<
    int main(int argc, char *argv[], char *envp[]) {
        fprintf(stdout, "--printenvz--begin\n");
        for (char **env = envp; *env != NULL; ++env) {
            fprintf(stdout, "%s%c", *env, '\0');
        }
        fprintf(stdout, "\n--printenvz--end\n");
        return 0;
    }
>>

    Layout of the development:
    - [CString]: [char *] values and the string a pointer designates;
    - [Stdio]: the open-file table, [fprintf] with the two conversions the
      program uses, over an arbitrary output device;
    - [Printenvz]: the loop and [main];
    - [Pipe]: the device that accepts every byte, and what is observed on it;
    - [Reader]: how a consumer cuts the output back into entries. *)

From Stdlib Require Import ZArith Strings.Byte Strings.String.
From stdpp Require Import gmap list option.

Local Open Scope Z_scope.

(** ** Bytes *)

Definition NUL : byte := x00.
Definition LF : byte := x0a.

(** The bytes of a C string literal without escapes. *)
Definition bytes (s : string) : list byte := list_byte_of_string s.

Definition is_nul (b : byte) : bool := Byte.eqb b NUL.

(** A text that can be the contents of a C string: no NUL inside. *)
Definition nul_free (e : list byte) : bool := forallb (λ b, negb (is_nul b)) e.

(** ** C strings behind [char *] *)
Module CString.

(** A [char *]: the null pointer, or a pointer to the bytes of the object it
    points into, from the pointed byte to the end of that object. *)
Inductive ptr : Type :=
| NULL
| Ptr (buf : list byte).

(** The string designated by a buffer: the bytes before the first NUL.
    A buffer without NUL is not a string; reading it runs off the object. *)
Fixpoint c_str (buf : list byte) : option (list byte) :=
  match buf with
  | [] => None
  | b :: buf' => if is_nul b then Some [] else (b ::.) <$> c_str buf'
  end.

(** The bytes of a text up to its first NUL, all of it when there is none. *)
Fixpoint until_nul (e : list byte) : list byte :=
  match e with
  | [] => []
  | b :: e' => if is_nul b then [] else b :: until_nul e'
  end.

(** The strings an environment block holds: those designated by the
    pointers before the first null pointer, in array order. *)
Fixpoint strings_of (envp : list ptr) : list (list byte) :=
  match envp with
  | Ptr buf :: envp' => until_nul buf :: strings_of envp'
  | _ => []
  end.

(** How the host lays one entry out in memory: its text and a terminator. *)
Definition store (e : list byte) : ptr := Ptr (e ++ [NUL]).

(** The environment block handed to [main]: one pointer per entry, then a
    null pointer. *)
Definition envp_of (entries : list (list byte)) : list ptr :=
  (store <$> entries) ++ [NULL].

(** An array the loop of [main] can walk: a null pointer is reached, and
    every pointer before it designates a string. *)
Fixpoint env_ok (envp : list ptr) : bool :=
  match envp with
  | [] => false
  | NULL :: _ => true
  | Ptr buf :: envp' => existsb is_nul buf && env_ok envp'
  end.

End CString.
Export CString.

(** ** The part of <stdio.h> the program uses *)
Module Stdio.

(** File descriptors behind the three standard streams. *)
Definition stdin : nat := 0%nat.
Definition stdout : nat := 1%nat.
Definition stderr : nat := 2%nat.

(** A variadic argument of [fprintf]. *)
Inductive arg : Type :=
| ArgStr (p : ptr)
| ArgInt (c : Z).

(** [%c] converts its [int] argument to [unsigned char]. *)
Definition uchar (c : Z) : byte :=
  default x00 (Byte.of_N (Z.to_N (c mod 256))).

(** The bytes a format produces. Only [%s] and [%c] occur in the program;
    [None] is undefined behaviour: a null or unterminated [%s] argument, an
    argument of the wrong kind, a missing argument, another conversion. *)
Fixpoint format (fmt : list byte) (args : list arg) : option (list byte) :=
  match fmt with
  | [] => Some []
  | "%"%byte :: fmt' =>
      match fmt' with
      | "s"%byte :: fmt'' =>
          match args with
          | ArgStr (Ptr buf) :: args' =>
              s ← c_str buf; r ← format fmt'' args'; Some (s ++ r)
          | _ => None
          end
      | "c"%byte :: fmt'' =>
          match args with
          | ArgInt c :: args' => r ← format fmt'' args'; Some (uchar c :: r)
          | _ => None
          end
      | _ => None
      end
  | b :: fmt' => r ← format fmt' args; Some (b :: r)
  end.

Section Device.

(** The state of whatever sits behind a descriptor (a terminal, a pipe, a
    file on a full disk, ...) and its reaction to a write: the new state
    and whether the write succeeded. Nothing is assumed about it. *)
Context {dev : Type}.
Variable dev_write : dev → list byte → dev * bool.

(** The open-file table is a finite map from descriptors to devices. A
    computation reads and updates it, or has undefined behaviour. *)
Definition M (A : Type) : Type := gmap nat dev → option (A * gmap nat dev).

Definition ret {A} (a : A) : M A := λ w, Some (a, w).

Definition bind {A B} (m : M A) (k : A → M B) : M B :=
  λ w, match m w with
       | Some (a, w') => k a w'
       | None => None
       end.

(** What one write does to the table: the device behind [stream] takes
    the bytes; a closed descriptor leaves the table as it is. *)
Definition put (stream : nat) (w : gmap nat dev) (bs : list byte) : gmap nat dev :=
  match w !! stream with
  | Some d => <[stream := (dev_write d bs).1]> w
  | None => w
  end.

(** Whether that write succeeds. *)
Definition accepted (stream : nat) (w : gmap nat dev) (bs : list byte) : bool :=
  match w !! stream with
  | Some d => (dev_write d bs).2
  | None => false
  end.

(** [fprintf]: the number of bytes transmitted, or a negative value when
    the write fails. *)
Definition fprintf (stream : nat) (fmt : list byte) (args : list arg) : M Z :=
  λ w, match format fmt args with
       | None => None
       | Some bs =>
           Some (if accepted stream w bs then Z.of_nat (length bs) else -1,
                 put stream w bs)
       end.

End Device.

Declare Scope io_scope.
Delimit Scope io_scope with io.
Notation "x <- m ;; k" := (bind m (λ x, k))
  (at level 100, m at next level, right associativity) : io_scope.
Notation "m ;; k" := (bind m (λ _, k))
  (at level 100, right associativity) : io_scope.

End Stdio.
Export Stdio.

(** ** The program *)
Module Printenvz.

Section Device.

Context {dev : Type}.
Variable dev_write : dev → list byte → dev * bool.

Local Open Scope io_scope.

(** ["--printenvz--begin\n"] *)
Definition fmt_begin : list byte := bytes "--printenvz--begin" ++ [LF].

(** ["%s%c"] *)
Definition fmt_entry : list byte := bytes "%s%c".

(** ["\n--printenvz--end\n"] *)
Definition fmt_end : list byte := LF :: bytes "--printenvz--end" ++ [LF].

(** [for (char **env = envp; *env != NULL; ++env) { fprintf(...); }]:
    [env] is the array from the current position on. Reading [*env] past
    the last element is undefined. *)
Fixpoint for_env (env : list ptr) : M unit :=
  match env with
  | [] => λ _, None
  | NULL :: _ => ret tt
  | p :: env' =>
      fprintf dev_write stdout fmt_entry [ArgStr p; ArgInt 0] ;;
      for_env env'
  end.

Definition main (argc : Z) (argv : list ptr) (envp : list ptr) : M Z :=
  fprintf dev_write stdout fmt_begin [] ;;
  for_env envp ;;
  fprintf dev_write stdout fmt_end [] ;;
  ret 0.

End Device.

End Printenvz.
Export Printenvz.

(** ** Output devices *)
Module Pipe.

(** A sink that takes every byte: its state is what it has received. *)
Definition pipe_write (d : list byte) (bs : list byte) : list byte * bool :=
  (d ++ bs, true).

(** A sink with room for [n] more bytes (a full disk, a reader that goes
    away): a write that fits is taken, one that does not is cut short and
    reported as failed. *)
Definition quota_write (d : list byte * nat) (bs : list byte) : (list byte * nat) * bool :=
  let '(got, n) := d in
  if (length bs <=? n)%nat
  then ((got ++ bs, (n - length bs)%nat), true)
  else ((got ++ take n bs, 0%nat), false).

(** The table of a process whose three standard streams are open and have
    carried nothing yet. *)
Definition fresh : gmap nat (list byte) :=
  {[ stdin := []; stdout := []; stderr := [] ]}.

(** What is observed of one launch with the given arguments and environment
    block: the exit code and the bytes on standard output. *)
Definition launch (argc : Z) (argv : list ptr) (envp : list ptr)
  : option (Z * list byte) :=
  match main pipe_write argc argv envp fresh with
  | Some (code, w) => (λ out, (code, out)) <$> w !! stdout
  | None => None
  end.

(** The bytes on standard output alone. *)
Definition stdout_of (argc : Z) (argv : list ptr) (envp : list ptr)
  : option (list byte) :=
  snd <$> launch argc argv envp.

End Pipe.
Export Pipe.

(** ** Reading the output back

    These definitions are the consumer's side of the format, written from
    the description of the format and not from the program: the block
    between the two marker lines, cut at NUL bytes. *)
Module Reader.

(** The begin marker line and the end marker line. *)
Definition begin_line : list byte := bytes "--printenvz--begin" ++ [LF].
Definition end_line : list byte := bytes "--printenvz--end" ++ [LF].

Fixpoint list_eqb (l k : list byte) : bool :=
  match l, k with
  | [], [] => true
  | a :: l', b :: k' => Byte.eqb a b && list_eqb l' k'
  | _, _ => false
  end.

(** The bytes between the begin marker line and the newline that precedes
    the end marker line; [None] when a marker is missing. *)
Definition between_markers (out : list byte) : option (list byte) :=
  let hd := length begin_line in
  let tl := length (LF :: end_line) in
  let mid := (length out - hd - tl)%nat in
  if (hd + tl <=? length out)%nat
     && list_eqb (take hd out) begin_line
     && list_eqb (drop (hd + mid) out) (LF :: end_line)
  then Some (take mid (drop hd out))
  else None.

(** Cut at NUL bytes: the NUL-terminated records in order, and the bytes
    after the last NUL. *)
Fixpoint split_nul (bs : list byte) : list (list byte) * list byte :=
  match bs with
  | [] => ([], [])
  | b :: bs' =>
      let '(rs, rest) := split_nul bs' in
      if is_nul b then ([] :: rs, rest)
      else match rs with
           | r :: rs' => ((b :: r) :: rs', rest)
           | [] => ([], b :: rest)
           end
  end.

(** The NUL-terminated entries between the markers. *)
Definition entries_of (out : list byte) : option (list (list byte)) :=
  (λ region, (split_nul region).1) <$> between_markers out.

(** The whole decoder: the entries, provided the block between the markers
    is made of NUL-terminated records and nothing else. *)
Definition decode (out : list byte) : option (list (list byte)) :=
  region ← between_markers out;
  match split_nul region with
  | (rs, []) => Some rs
  | _ => None
  end.

End Reader.
Export Reader.

(** ** The writes of one run *)

(** The byte strings a run hands to standard output, one per [fprintf] call:
    the begin marker line, each string of the block with its NUL, the newline
    and end marker line. *)
Definition writes (envp : list ptr) : list (list byte) :=
  begin_line :: ((.++ [NUL]) <$> strings_of envp) ++ [LF :: end_line].

(** ** Sample data *)

(** The environment of the scenario: [PATH=/usr/bin] then [HOME=/home/u]. *)
Definition sample_env : list (list byte) :=
  [bytes "PATH=/usr/bin"; bytes "HOME=/home/u"].

(** An argument vector: [printenvz -v]. *)
Definition sample_argv : list ptr :=
  [store (bytes "printenvz"); store (bytes "-v"); NULL].

(** * Properties *)

(** ** Strings in memory *)
Section CStringFacts.

Implicit Types (b : byte) (e buf : list byte) (entries : list (list byte)).

Local Arguments nul_free : simpl never.
Local Arguments is_nul : simpl never.

Lemma is_nul_true b : is_nul b = true ↔ b = NUL.
Proof.
  unfold is_nul. split.
  - apply Byte.byte_dec_bl.
  - apply Byte.byte_dec_lb.
Qed.

Lemma nul_free_cons b e :
  nul_free (b :: e) = negb (is_nul b) && nul_free e.
Proof. reflexivity. Qed.

(** A terminated buffer designates the bytes before its first NUL. *)
Lemma c_str_terminated buf :
  existsb is_nul buf = true → c_str buf = Some (until_nul buf).
Proof.
  induction buf as [|b buf IH]; simpl; [discriminate|].
  destruct (is_nul b); simpl; [reflexivity|].
  intros H. by rewrite (IH H).
Qed.

(** An unterminated buffer designates nothing. *)
Lemma c_str_unterminated buf :
  existsb is_nul buf = false → c_str buf = None.
Proof.
  induction buf as [|b buf IH]; simpl; [reflexivity|].
  destruct (is_nul b); simpl; [discriminate|].
  intros H. by rewrite (IH H).
Qed.

Lemma until_nul_nul_free e : nul_free (until_nul e) = true.
Proof.
  induction e as [|b e IH]; simpl; [reflexivity|].
  destruct (is_nul b) eqn:Hb; [reflexivity|].
  by rewrite nul_free_cons, Hb, IH.
Qed.

(** Nothing is cut from a text without NUL. *)
Lemma until_nul_id e : nul_free e = true → until_nul e = e.
Proof.
  induction e as [|b e IH]; simpl; [reflexivity|].
  rewrite nul_free_cons. destruct (is_nul b); simpl; [discriminate|].
  intros H. by rewrite (IH H).
Qed.

Lemma until_nul_app_NUL e tl : until_nul (e ++ NUL :: tl) = until_nul e.
Proof.
  induction e as [|b e IH]; simpl; [reflexivity|].
  destruct (is_nul b); [reflexivity|]. by rewrite IH.
Qed.

Lemma existsb_is_nul_store e : existsb is_nul (e ++ [NUL]) = true.
Proof.
  rewrite existsb_app. simpl. by rewrite orb_true_r.
Qed.

(** The block built from a list of entries is well formed, ... *)
Lemma env_ok_envp_of entries : env_ok (envp_of entries) = true.
Proof.
  unfold envp_of. induction entries as [|e entries IH]; [reflexivity|].
  csimpl. by rewrite existsb_is_nul_store, IH.
Qed.

(** ... and holds each entry up to its first NUL. *)
Lemma strings_of_envp_of entries :
  strings_of (envp_of entries) = until_nul <$> entries.
Proof.
  unfold envp_of. induction entries as [|e entries IH]; [reflexivity|].
  csimpl. by rewrite until_nul_app_NUL, IH.
Qed.

Lemma map_until_nul_id entries :
  forallb nul_free entries = true → until_nul <$> entries = entries.
Proof.
  induction entries as [|e entries IH]; csimpl; [reflexivity|].
  intros [He Hes]%andb_true_iff. by rewrite (until_nul_id _ He), (IH Hes).
Qed.

Lemma strings_of_nul_free envp :
  forallb nul_free (strings_of envp) = true.
Proof.
  induction envp as [|[|buf] envp IH]; simpl; try reflexivity.
  by rewrite until_nul_nul_free, IH.
Qed.

End CStringFacts.

(** ** [fprintf] *)
Section StdioFacts.

Context {dev : Type}.
Variable dev_write : dev → list byte → dev * bool.

Implicit Types (w : gmap nat dev) (bs : list byte) (cs : list (list byte)).

(** The two marker formats have no conversion: they are written as they
    are. *)
Lemma format_begin : format fmt_begin [] = Some begin_line.
Proof. reflexivity. Qed.

Lemma format_end : format fmt_end [] = Some (LF :: end_line).
Proof. reflexivity. Qed.

(** ["%s%c"] with a string and ['\0']: the string, then one NUL. *)
Lemma format_entry buf :
  format fmt_entry [ArgStr (Ptr buf); ArgInt 0] = (.++ [NUL]) <$> c_str buf.
Proof.
  unfold fmt_entry. simpl. destruct (c_str buf); reflexivity.
Qed.

(** A write touches no descriptor but its own, and neither opens nor closes
    one. *)
Lemma put_frame stream w bs :
  delete stream (put dev_write stream w bs) = delete stream w.
Proof.
  unfold put. destruct (w !! stream); [|reflexivity].
  apply delete_insert_eq.
Qed.

Lemma foldl_put_frame stream cs w :
  delete stream (foldl (put dev_write stream) w cs) = delete stream w.
Proof.
  revert w. induction cs as [|bs cs IH]; intros w; simpl; [reflexivity|].
  by rewrite IH, put_frame.
Qed.

Lemma foldl_put_closed stream cs w :
  w !! stream = None → foldl (put dev_write stream) w cs = w.
Proof.
  intros Hw. induction cs as [|bs cs IH]; simpl; [reflexivity|].
  unfold put at 2. by rewrite Hw.
Qed.

End StdioFacts.

(** ** The loop and [main], on any device *)
Section MainFacts.

Context {dev : Type}.
Variable dev_write : dev → list byte → dev * bool.

Implicit Types (w : gmap nat dev) (envp argv : list ptr) (argc : Z).

Local Abbreviation out := (put dev_write stdout).

(** On a well-formed block the loop issues one write per string, in array
    order, and stops at the null pointer. *)
Lemma for_env_run envp w :
  env_ok envp = true →
  for_env dev_write envp w
  = Some (tt, foldl out w ((.++ [NUL]) <$> strings_of envp)).
Proof.
  revert w. induction envp as [|[|buf] envp IH]; intros w; simpl.
  - discriminate.
  - reflexivity.
  - intros [Hbuf Henv]%andb_true_iff.
    unfold bind, fprintf. rewrite format_entry, (c_str_terminated _ Hbuf).
    simpl. apply IH, Henv.
Qed.

(** On any other block the loop reads outside an object. *)
Lemma for_env_undefined envp w :
  env_ok envp = false → for_env dev_write envp w = None.
Proof.
  revert w. induction envp as [|[|buf] envp IH]; intros w; simpl.
  - reflexivity.
  - discriminate.
  - intros Hok. unfold bind, fprintf. rewrite format_entry.
    destruct (existsb is_nul buf) eqn:Hbuf.
    + rewrite (c_str_terminated _ Hbuf). simpl. apply IH, Hok.
    + by rewrite (c_str_unterminated _ Hbuf).
Qed.

(** [main] on a well-formed block: exit code 0 after the writes of
    [writes envp] to standard output, whatever the device answers. *)
Lemma main_run argc argv envp w :
  env_ok envp = true →
  main dev_write argc argv envp w = Some (0, foldl out w (writes envp)).
Proof.
  intros Hok. unfold main, bind, fprintf at 1.
  rewrite format_begin, (for_env_run _ _ Hok).
  unfold fprintf. rewrite format_end.
  unfold writes, ret. simpl. by rewrite foldl_app.
Qed.

Lemma main_undefined argc argv envp w :
  env_ok envp = false → main dev_write argc argv envp w = None.
Proof.
  intros Hok. unfold main, bind, fprintf at 1.
  by rewrite format_begin, (for_env_undefined _ _ Hok).
Qed.

End MainFacts.

(** ** On a device that takes every byte *)
Section PipeFacts.

Implicit Types (w : gmap nat (list byte)) (cs : list (list byte)).

(** Successive writes append. *)
Lemma foldl_put_pipe stream cs w pre :
  w !! stream = Some pre →
  foldl (put pipe_write stream) w cs = <[stream := pre ++ concat cs]> w.
Proof.
  revert w pre. induction cs as [|bs cs IH]; intros w pre Hw; simpl.
  - rewrite app_nil_r. symmetry. by apply insert_id.
  - unfold put at 2. rewrite Hw. simpl.
    rewrite (IH _ (pre ++ bs)) by apply lookup_insert_eq.
    by rewrite insert_insert_eq, app_assoc.
Qed.

Lemma concat_writes envp :
  concat (writes envp)
  = begin_line ++ concat ((.++ [NUL]) <$> strings_of envp) ++ LF :: end_line.
Proof.
  unfold writes. rewrite concat_cons, concat_app. cbn [concat].
  by rewrite app_nil_r.
Qed.

(** What a launch shows on a pipe. *)
Lemma launch_run argc argv envp :
  env_ok envp = true →
  launch argc argv envp
  = Some (0, begin_line ++ concat ((.++ [NUL]) <$> strings_of envp)
                        ++ LF :: end_line).
Proof.
  intros Hok. unfold launch. rewrite (main_run _ _ _ _ _ Hok).
  rewrite (foldl_put_pipe stdout _ fresh []) by reflexivity.
  by rewrite lookup_insert_eq, concat_writes.
Qed.

End PipeFacts.

(** ** The reader *)
Section ReaderFacts.

Implicit Types (b : byte) (s region tl : list byte) (ss : list (list byte)).

Local Arguments nul_free : simpl never.
Local Arguments is_nul : simpl never.
Local Arguments begin_line : simpl never.
Local Arguments end_line : simpl never.

Lemma list_eqb_refl s : list_eqb s s = true.
Proof.
  induction s as [|b s IH]; simpl; [reflexivity|].
  by rewrite (Byte.byte_dec_lb eq_refl), IH.
Qed.

(** The block is found between the markers, whatever it contains. *)
Lemma between_markers_block region :
  between_markers (begin_line ++ region ++ LF :: end_line) = Some region.
Proof.
  unfold between_markers.
  set (hd := length begin_line). set (tl := length (LF :: end_line)).
  assert (Hlen : length (begin_line ++ region ++ LF :: end_line)
                 = (hd + (length region + tl))%nat)
    by (by rewrite !length_app).
  rewrite Hlen.
  replace (hd + (length region + tl) - hd - tl)%nat with (length region) by lia.
  assert ((hd + tl <=? hd + (length region + tl))%nat = true) as ->
    by (apply Nat.leb_le; lia).
  rewrite (take_app_length begin_line), list_eqb_refl.
  rewrite (drop_app_length' begin_line _ hd) by reflexivity.
  rewrite (app_assoc begin_line region).
  rewrite (drop_app_length' (begin_line ++ region))
    by (rewrite length_app; reflexivity).
  by rewrite list_eqb_refl, take_app_length.
Qed.

(** A NUL-free text followed by a NUL is the first record. *)
Lemma split_nul_record s tl :
  nul_free s = true →
  split_nul (s ++ NUL :: tl) = (s :: (split_nul tl).1, (split_nul tl).2).
Proof.
  induction s as [|b s IH]; intros Hs.
  - simpl. by destruct (split_nul tl).
  - rewrite nul_free_cons in Hs. apply andb_true_iff in Hs as [Hb Hs].
    simpl. rewrite (IH Hs). apply negb_true_iff in Hb. by rewrite Hb.
Qed.

(** A sequence of NUL-terminated NUL-free texts is cut back into them. *)
Lemma split_nul_records ss :
  forallb nul_free ss = true →
  split_nul (concat ((.++ [NUL]) <$> ss)) = (ss, []).
Proof.
  induction ss as [|s ss IH]; csimpl; [reflexivity|].
  intros [Hs Hss]%andb_true_iff.
  rewrite <- app_assoc. simpl. by rewrite (split_nul_record _ _ Hs), (IH Hss).
Qed.

End ReaderFacts.

(** ** Worked runs *)

(** The scenario of the format description: two entries, exit code 0. *)
Example scenario_two_entries :
  launch 1 [store (bytes "printenvz"); NULL] (envp_of sample_env)
  = Some (0, bytes "--printenvz--begin" ++ [LF]
             ++ bytes "PATH=/usr/bin" ++ [NUL]
             ++ bytes "HOME=/home/u" ++ [NUL]
             ++ [LF] ++ bytes "--printenvz--end" ++ [LF]).
Proof. vm_compute. reflexivity. Qed.

(** The loop stops at the first null pointer: what follows it in the array is
    never read. *)
Example stops_at_first_null :
  stdout_of 0 [] [Ptr (bytes "A=1" ++ [NUL]); NULL; Ptr (bytes "B=2")]
  = Some (begin_line ++ bytes "A=1" ++ [NUL] ++ LF :: end_line).
Proof. vm_compute. reflexivity. Qed.

(** An array without null pointer, or a pointer to bytes without NUL, is not
    an environment block: the run is undefined. *)
Example unterminated_block_undefined :
  launch 0 [] [Ptr (bytes "A=1" ++ [NUL])] = None
  ∧ launch 0 [] [Ptr (bytes "A=1"); NULL] = None.
Proof. split; reflexivity. Qed.

(** Bytes after a NUL inside a buffer are not part of the string: [%s] stops
    at the first NUL. *)
Example string_ends_at_first_nul :
  stdout_of 0 [] [Ptr (bytes "A=1" ++ [NUL] ++ bytes "junk" ++ [NUL]); NULL]
  = Some (begin_line ++ bytes "A=1" ++ [NUL] ++ LF :: end_line).
Proof. vm_compute. reflexivity. Qed.

(** A sink with room for 25 bytes: the begin line and six bytes of the first
    entry arrive, the other writes fail, and the exit code is 0 all the same. *)
Example short_write_still_exit_0 :
  main quota_write 1 [] (envp_of sample_env) {[ stdout := ([], 25%nat) ]}
  = Some (0, {[ stdout := (begin_line ++ bytes "PATH=/", 0%nat) ]}).
Proof. vm_compute. reflexivity. Qed.

(** Standard output closed by the parent: nothing is written anywhere, and
    the exit code is 0. *)
Example closed_stdout_still_exit_0 :
  main pipe_write 1 [] (envp_of sample_env) {[ stderr := [] ]}
  = Some (0, {[ stderr := [] ]}).
Proof. vm_compute. reflexivity. Qed.

(** An entry may contain the text of a marker: the reader is not misled. *)
Example marker_inside_entry :
  stdout_of 0 [] (envp_of [bytes "X=" ++ LF :: end_line]) ≫= decode
  = Some [bytes "X=" ++ LF :: end_line].
Proof. vm_compute. reflexivity. Qed.

(** ** The format of the output *)

(** C1. For every list of environment entries (C strings: texts without NUL)
    and whatever the arguments, the bytes on standard output are the begin
    marker line, then each entry followed by exactly one NUL and nothing
    else, then one newline, then the end marker line with its newline. *)
Theorem output_exact (argc : Z) (argv : list ptr) (entries : list (list byte)) :
  forallb nul_free entries = true →
  stdout_of argc argv (envp_of entries)
  = Some (bytes "--printenvz--begin" ++ [LF]
          ++ concat ((λ e, e ++ [NUL]) <$> entries)
          ++ [LF] ++ bytes "--printenvz--end" ++ [LF]).
Proof.
  intros Hfree. unfold stdout_of.
  rewrite launch_run by apply env_ok_envp_of.
  rewrite strings_of_envp_of, (map_until_nul_id _ Hfree).
  unfold begin_line, end_line. by rewrite <- app_assoc.
Qed.

Lemma output_exact_sample :
  forallb nul_free sample_env = true
  ∧ stdout_of 2 sample_argv (envp_of sample_env)
    = Some (bytes "--printenvz--begin" ++ [LF]
            ++ concat ((λ e, e ++ [NUL]) <$> sample_env)
            ++ [LF] ++ bytes "--printenvz--end" ++ [LF]).
Proof.
  split; [reflexivity|].
  apply (output_exact 2 sample_argv sample_env). reflexivity.
Defined.

(** C2. With no environment entry at all, standard output is exactly the
    begin marker line, the separating newline and the end marker line. *)
Theorem empty_environment (argc : Z) (argv : list ptr) :
  stdout_of argc argv (envp_of [])
  = Some (bytes "--printenvz--begin" ++ [LF; LF]
          ++ bytes "--printenvz--end" ++ [LF]).
Proof. reflexivity. Qed.

(** C3. The number of NUL-terminated entries between the two markers is the
    number of entries of the environment. *)
Theorem entry_count (argc : Z) (argv : list ptr) (entries : list (list byte)) :
  ∃ out rs,
    stdout_of argc argv (envp_of entries) = Some out
    ∧ entries_of out = Some rs
    ∧ length rs = length entries.
Proof.
  eexists _, _. unfold stdout_of, entries_of.
  rewrite launch_run by apply env_ok_envp_of.
  split; [reflexivity|]. cbn [snd]. rewrite between_markers_block.
  split; [reflexivity|]. cbn [fmap option_fmap option_map].
  rewrite split_nul_records by apply strings_of_nul_free.
  cbn [fst]. by rewrite strings_of_envp_of, length_fmap.
Qed.

(** C4. The entries between the markers come in the order of the block the
    host supplied: the i-th NUL-terminated entry of the output is the string
    the i-th pointer of the block designates. *)
Theorem entry_order (argc : Z) (argv : list ptr) (envp : list ptr) :
  env_ok envp = true →
  ∃ out rs,
    stdout_of argc argv envp = Some out
    ∧ entries_of out = Some rs
    ∧ ∀ i : nat, rs !! i = strings_of envp !! i.
Proof.
  intros Hok. eexists _, _. unfold stdout_of, entries_of.
  rewrite (launch_run _ _ _ Hok).
  split; [reflexivity|]. cbn [snd]. rewrite between_markers_block.
  split; [reflexivity|]. intros i.
  by rewrite split_nul_records by apply strings_of_nul_free.
Qed.

Lemma entry_order_sample :
  env_ok (envp_of sample_env) = true
  ∧ ∃ out rs,
      stdout_of 2 sample_argv (envp_of sample_env) = Some out
      ∧ entries_of out = Some rs
      ∧ ∀ i : nat, rs !! i = strings_of (envp_of sample_env) !! i.
Proof.
  split; [reflexivity|].
  apply (entry_order 2 sample_argv (envp_of sample_env)). reflexivity.
Defined.

(** C5. The i-th entry of the output is, byte for byte, the i-th entry given
    at launch: nothing is transformed, cut or re-encoded. *)
Theorem entry_fidelity (argc : Z) (argv : list ptr)
    (entries : list (list byte)) (i : nat) (e : list byte) :
  entries !! i = Some e →
  nul_free e = true →
  ∃ out rs,
    stdout_of argc argv (envp_of entries) = Some out
    ∧ entries_of out = Some rs
    ∧ rs !! i = Some e.
Proof.
  intros Hi He. eexists _, _. unfold stdout_of, entries_of.
  rewrite launch_run by apply env_ok_envp_of.
  split; [reflexivity|]. cbn [snd]. rewrite between_markers_block.
  split; [reflexivity|]. cbn [fmap option_fmap option_map].
  rewrite split_nul_records by apply strings_of_nul_free.
  cbn [fst]. rewrite strings_of_envp_of, list_lookup_fmap, Hi.
  simpl. by rewrite (until_nul_id _ He).
Qed.

Lemma entry_fidelity_sample :
  sample_env !! 1%nat = Some (bytes "HOME=/home/u")
  ∧ nul_free (bytes "HOME=/home/u") = true
  ∧ ∃ out rs,
      stdout_of 2 sample_argv (envp_of sample_env) = Some out
      ∧ entries_of out = Some rs
      ∧ rs !! 1%nat = Some (bytes "HOME=/home/u").
Proof.
  split; [reflexivity|]. split; [reflexivity|].
  apply (entry_fidelity 2 sample_argv sample_env 1 (bytes "HOME=/home/u"));
    reflexivity.
Defined.

(** ** Exit code, effects, arguments *)

(** C6. Whatever the environment entries, the arguments, the open files and
    the answers of the output device (failed writes included), [main] returns
    and its exit code is 0. *)
Theorem exit_code_zero {dev : Type} (dev_write : dev → list byte → dev * bool)
    (argc : Z) (argv : list ptr) (entries : list (list byte))
    (w : gmap nat dev) :
  fst <$> main dev_write argc argv (envp_of entries) w = Some 0.
Proof.
  by rewrite main_run by apply env_ok_envp_of.
Qed.

(** C7. All the program does to the open files is a sequence of writes to
    standard output: every descriptor other than standard output (standard
    error among them) is after the run what it was before, none is opened or
    closed, and the only other result is the exit code. *)
Theorem writes_only_stdout {dev : Type} (dev_write : dev → list byte → dev * bool)
    (argc : Z) (argv : list ptr) (entries : list (list byte))
    (w : gmap nat dev) :
  ∃ code w',
    main dev_write argc argv (envp_of entries) w = Some (code, w')
    ∧ w' = foldl (put dev_write stdout) w (writes (envp_of entries))
    ∧ delete stdout w' = delete stdout w
    ∧ w' !! stderr = w !! stderr.
Proof.
  eexists _, _. split; [by apply main_run, env_ok_envp_of|].
  split; [reflexivity|].
  assert (delete stdout (foldl (put dev_write stdout) w (writes (envp_of entries)))
          = delete stdout w) as Hframe by apply foldl_put_frame.
  split; [exact Hframe|].
  apply (f_equal (.!! stderr)) in Hframe.
  by rewrite !lookup_delete_ne in Hframe.
Qed.

(** C8. The arguments are never looked at: two runs that differ only in
    [argc] and [argv] do the same to the open files and return the same exit
    code, so their standard output and exit code are the same. *)
Theorem arguments_ignored {dev : Type} (dev_write : dev → list byte → dev * bool)
    (argc argc' : Z) (argv argv' : list ptr) (envp : list ptr)
    (w : gmap nat dev) :
  main dev_write argc argv envp w = main dev_write argc' argv' envp w
  ∧ launch argc argv envp = launch argc' argv' envp.
Proof. split; reflexivity. Qed.

(** C9. On every null-terminated block of strings the program terminates:
    the loop moves one pointer forward per iteration and stops at the null
    pointer, so [main] returns a result. *)
Theorem main_terminates {dev : Type} (dev_write : dev → list byte → dev * bool)
    (argc : Z) (argv : list ptr) (envp : list ptr) (w : gmap nat dev) :
  env_ok envp = true →
  is_Some (main dev_write argc argv envp w).
Proof.
  intros Hok. rewrite (main_run _ _ _ _ _ Hok). by eexists.
Qed.

Lemma main_terminates_sample :
  env_ok (envp_of sample_env) = true
  ∧ is_Some (main quota_write 2 sample_argv (envp_of sample_env)
               {[ stdout := ([], 25%nat) ]}).
Proof.
  split; [reflexivity|].
  apply (main_terminates quota_write 2 sample_argv (envp_of sample_env)).
  reflexivity.
Defined.

(** ** Round trip *)

(** C10. The encoding loses nothing: cutting the block between the begin
    marker line and the newline before the end marker at its NUL bytes gives
    back the list of entries, for every list of NUL-free entries. *)
Theorem decode_launch (argc : Z) (argv : list ptr) (entries : list (list byte)) :
  forallb nul_free entries = true →
  stdout_of argc argv (envp_of entries) ≫= decode = Some entries.
Proof.
  intros Hfree. unfold stdout_of.
  rewrite launch_run by apply env_ok_envp_of.
  rewrite strings_of_envp_of, (map_until_nul_id _ Hfree).
  cbn [fmap option_fmap option_map snd mbind option_bind]. unfold decode.
  rewrite between_markers_block.
  cbn [mbind option_bind]. by rewrite (split_nul_records _ Hfree).
Qed.

Lemma decode_launch_sample :
  forallb nul_free sample_env = true
  ∧ stdout_of 2 sample_argv (envp_of sample_env) ≫= decode = Some sample_env.
Proof.
  split; [reflexivity|].
  apply (decode_launch 2 sample_argv sample_env). reflexivity.
Defined.

(** * Further properties of [main] *)

(** ** What the loop reads *)

(** X1. [main] returns a result exactly on the well-formed blocks: an array
    without null pointer, or a pointer before the null pointer whose bytes
    have no NUL, makes the run undefined, on any device. *)
Theorem main_defined_iff_env_ok {dev : Type}
    (dev_write : dev → list byte → dev * bool)
    (argc : Z) (argv : list ptr) (envp : list ptr) (w : gmap nat dev) :
  bool_decide (is_Some (main dev_write argc argv envp w)) = env_ok envp.
Proof.
  destruct (env_ok envp) eqn:Hok.
  - rewrite (main_run _ _ _ _ _ Hok). apply bool_decide_eq_true. by eexists.
  - rewrite (main_undefined _ _ _ _ _ Hok). apply bool_decide_eq_false.
    by intros [? ?].
Qed.

(** X2. The run depends on the block through its strings only: the bytes of
    a buffer after its first NUL and the pointers after the first null
    pointer are never read, and neither are the arguments. *)
Theorem main_reads_strings_only {dev : Type}
    (dev_write : dev → list byte → dev * bool)
    (argc argc' : Z) (argv argv' : list ptr) (envp envp' : list ptr)
    (w : gmap nat dev) :
  env_ok envp = true →
  env_ok envp' = true →
  strings_of envp = strings_of envp' →
  main dev_write argc argv envp w = main dev_write argc' argv' envp' w.
Proof.
  intros Hok Hok' Heq.
  rewrite (main_run _ _ _ _ _ Hok), (main_run _ _ _ _ _ Hok').
  unfold writes. by rewrite Heq.
Qed.

Lemma main_reads_strings_only_sample :
  env_ok [Ptr (bytes "A=1" ++ [NUL] ++ bytes "junk" ++ [NUL]); NULL; Ptr (bytes "B=2")]
  = true
  ∧ env_ok (envp_of [bytes "A=1"]) = true
  ∧ strings_of [Ptr (bytes "A=1" ++ [NUL] ++ bytes "junk" ++ [NUL]); NULL; Ptr (bytes "B=2")]
    = strings_of (envp_of [bytes "A=1"])
  ∧ main pipe_write 0 []
      [Ptr (bytes "A=1" ++ [NUL] ++ bytes "junk" ++ [NUL]); NULL; Ptr (bytes "B=2")]
      fresh
    = main pipe_write 2 sample_argv (envp_of [bytes "A=1"]) fresh.
Proof.
  split; [reflexivity|]. split; [reflexivity|]. split; [reflexivity|].
  apply (main_reads_strings_only pipe_write 0 2 [] sample_argv
           [Ptr (bytes "A=1" ++ [NUL] ++ bytes "junk" ++ [NUL]); NULL; Ptr (bytes "B=2")]
           (envp_of [bytes "A=1"]) fresh); reflexivity.
Defined.

(** X3. The loop over a block that starts with the entries [es] is the
    writes of those entries, in order, followed by the loop over the rest of
    the block. *)
Theorem for_env_app {dev : Type} (dev_write : dev → list byte → dev * bool)
    (es : list (list byte)) (envp : list ptr) (w : gmap nat dev) :
  for_env dev_write ((store <$> es) ++ envp) w
  = for_env dev_write envp
      (foldl (put dev_write stdout) w ((λ e, until_nul e ++ [NUL]) <$> es)).
Proof.
  revert w. induction es as [|e es IH]; intros w; [reflexivity|].
  rewrite fmap_cons. change (store e) with (Ptr (e ++ [NUL])).
  cbn [app for_env]. unfold bind at 1, fprintf.
  rewrite format_entry, (c_str_terminated _ (existsb_is_nul_store e)).
  rewrite until_nul_app_NUL. cbn [fmap option_fmap option_map foldl].
  apply IH.
Qed.

(** ** Failing and used streams *)

(** X4. With standard output closed the program writes nowhere: the table of
    open files is left as it was, and the exit code is 0. *)
Theorem closed_stdout_no_effect {dev : Type}
    (dev_write : dev → list byte → dev * bool)
    (argc : Z) (argv : list ptr) (entries : list (list byte))
    (w : gmap nat dev) :
  w !! stdout = None →
  main dev_write argc argv (envp_of entries) w = Some (0, w).
Proof.
  intros Hw. rewrite main_run by apply env_ok_envp_of.
  by rewrite (foldl_put_closed _ _ _ _ Hw).
Qed.

Lemma closed_stdout_no_effect_sample :
  ({[ stderr := ([], 9%nat) ]} : gmap nat (list byte * nat)) !! stdout = None
  ∧ main quota_write 2 sample_argv (envp_of sample_env) {[ stderr := ([], 9%nat) ]}
    = Some (0, {[ stderr := ([], 9%nat) ]}).
Proof.
  split; [reflexivity|].
  apply (closed_stdout_no_effect quota_write 2 sample_argv sample_env
           {[ stderr := ([], 9%nat) ]}).
  reflexivity.
Defined.

(** X5. The program only appends: on a standard output that has already
    carried [pre], the run leaves [pre] followed by the begin line, the
    strings of the block each with its NUL, and the newline and end line. *)
Theorem stdout_appended (argc : Z) (argv : list ptr) (envp : list ptr)
    (w : gmap nat (list byte)) (pre : list byte) :
  env_ok envp = true →
  w !! stdout = Some pre →
  main pipe_write argc argv envp w
  = Some (0, <[stdout := pre ++ begin_line
                           ++ concat ((.++ [NUL]) <$> strings_of envp)
                           ++ LF :: end_line]> w).
Proof.
  intros Hok Hw. rewrite (main_run _ _ _ _ _ Hok).
  by rewrite (foldl_put_pipe _ _ _ _ Hw), concat_writes.
Qed.

Lemma stdout_appended_sample :
  env_ok (envp_of sample_env) = true
  ∧ ({[ stdout := bytes "earlier" ]} : gmap nat (list byte)) !! stdout
    = Some (bytes "earlier")
  ∧ main pipe_write 2 sample_argv (envp_of sample_env) {[ stdout := bytes "earlier" ]}
    = Some (0, <[stdout := bytes "earlier" ++ begin_line
                   ++ concat ((.++ [NUL]) <$> strings_of (envp_of sample_env))
                   ++ LF :: end_line]> {[ stdout := bytes "earlier" ]}).
Proof.
  split; [reflexivity|]. split; [reflexivity|].
  apply (stdout_appended 2 sample_argv (envp_of sample_env)
           {[ stdout := bytes "earlier" ]} (bytes "earlier")); reflexivity.
Defined.

(** ** The output as a sequence of bytes *)
Section BlockFacts.

Implicit Types (b : byte) (s : list byte) (ss : list (list byte)).

Local Arguments nul_free : simpl never.
Local Arguments is_nul : simpl never.

(** Two sequences of NUL-free texts with the same encoding are the same. *)
Lemma records_inj ss ss' :
  forallb nul_free ss = true →
  forallb nul_free ss' = true →
  concat ((.++ [NUL]) <$> ss) = concat ((.++ [NUL]) <$> ss') →
  ss = ss'.
Proof.
  intros Hss Hss' Heq. apply (f_equal split_nul) in Heq.
  rewrite (split_nul_records _ Hss), (split_nul_records _ Hss') in Heq.
  congruence.
Qed.

Lemma length_records ss :
  length (concat ((.++ [NUL]) <$> ss)) = sum_list ((λ s, S (length s)) <$> ss).
Proof.
  induction ss as [|s ss IH]; csimpl; [reflexivity|].
  rewrite !length_app, IH. simpl. lia.
Qed.

Lemma filter_is_nul_nul_free s :
  nul_free s = true → List.filter is_nul s = [].
Proof.
  induction s as [|b s IH]; [reflexivity|].
  rewrite nul_free_cons. intros [Hb Hs]%andb_true_iff.
  apply negb_true_iff in Hb. simpl. by rewrite Hb, (IH Hs).
Qed.

Lemma filter_is_nul_records ss :
  forallb nul_free ss = true →
  length (List.filter is_nul (concat ((.++ [NUL]) <$> ss))) = length ss.
Proof.
  induction ss as [|s ss IH]; csimpl; [reflexivity|].
  intros [Hs Hss]%andb_true_iff.
  rewrite !List.filter_app, (filter_is_nul_nul_free _ Hs), !length_app.
  simpl. by rewrite (IH Hss).
Qed.

End BlockFacts.

(** X6. The output determines the environment: two well-formed blocks whose
    runs show the same bytes on standard output hold the same strings, in
    the same order, whatever the arguments of the two runs. *)
Theorem stdout_determines_strings (argc argc' : Z) (argv argv' : list ptr)
    (envp envp' : list ptr) :
  env_ok envp = true →
  env_ok envp' = true →
  stdout_of argc argv envp = stdout_of argc' argv' envp' →
  strings_of envp = strings_of envp'.
Proof.
  intros Hok Hok'. unfold stdout_of.
  rewrite (launch_run _ _ _ Hok), (launch_run _ _ _ Hok').
  cbn [fmap option_fmap option_map snd]. intros [= Heq].
  apply app_inv_tail in Heq.
  by apply records_inj in Heq; [|apply strings_of_nul_free..].
Qed.

Lemma stdout_determines_strings_sample :
  env_ok [Ptr (bytes "A=1" ++ [NUL] ++ bytes "junk"); NULL] = true
  ∧ env_ok (envp_of [bytes "A=1"]) = true
  ∧ stdout_of 0 [] [Ptr (bytes "A=1" ++ [NUL] ++ bytes "junk"); NULL]
    = stdout_of 2 sample_argv (envp_of [bytes "A=1"])
  ∧ strings_of [Ptr (bytes "A=1" ++ [NUL] ++ bytes "junk"); NULL]
    = strings_of (envp_of [bytes "A=1"]).
Proof.
  split; [reflexivity|]. split; [reflexivity|]. split; [reflexivity|].
  apply (stdout_determines_strings 0 2 [] sample_argv
           [Ptr (bytes "A=1" ++ [NUL] ++ bytes "junk"); NULL]
           (envp_of [bytes "A=1"])); reflexivity.
Defined.

(** X7. The output is 37 bytes of markers and newlines plus, for each string
    of the block, its length and one byte for the NUL. *)
Theorem stdout_length (argc : Z) (argv : list ptr) (envp : list ptr) :
  env_ok envp = true →
  ∃ out,
    stdout_of argc argv envp = Some out
    ∧ length out
      = (37 + sum_list ((λ s, S (length s)) <$> strings_of envp))%nat.
Proof.
  intros Hok. eexists. unfold stdout_of. rewrite (launch_run _ _ _ Hok).
  split; [reflexivity|]. cbn [snd].
  rewrite !length_app, length_records.
  change (length begin_line) with 19%nat.
  change (length (LF :: end_line)) with 18%nat. lia.
Qed.

Lemma stdout_length_sample :
  env_ok (envp_of sample_env) = true
  ∧ ∃ out,
      stdout_of 2 sample_argv (envp_of sample_env) = Some out
      ∧ length out
        = (37 + sum_list ((λ s, S (length s)) <$> strings_of (envp_of sample_env)))%nat.
Proof.
  split; [reflexivity|].
  apply (stdout_length 2 sample_argv (envp_of sample_env)). reflexivity.
Defined.

(** X8. The output holds exactly one NUL byte per string of the block: the
    markers bring none and each entry is written with one. *)
Theorem stdout_nul_count (argc : Z) (argv : list ptr) (envp : list ptr) :
  env_ok envp = true →
  ∃ out,
    stdout_of argc argv envp = Some out
    ∧ length (List.filter is_nul out) = length (strings_of envp).
Proof.
  intros Hok. eexists. unfold stdout_of. rewrite (launch_run _ _ _ Hok).
  split; [reflexivity|]. cbn [snd].
  rewrite !List.filter_app, !length_app.
  rewrite filter_is_nul_records by apply strings_of_nul_free.
  change (List.filter is_nul begin_line) with (@nil byte).
  change (List.filter is_nul (LF :: end_line)) with (@nil byte).
  simpl. lia.
Qed.

Lemma stdout_nul_count_sample :
  env_ok (envp_of sample_env) = true
  ∧ ∃ out,
      stdout_of 2 sample_argv (envp_of sample_env) = Some out
      ∧ length (List.filter is_nul out) = length (strings_of (envp_of sample_env)).
Proof.
  split; [reflexivity|].
  apply (stdout_nul_count 2 sample_argv (envp_of sample_env)). reflexivity.
Defined.
